(** * wordcount: a word-frequency filter (src/basic.py)

    The program reads text from standard input, lowercases every line,
    splits it on whitespace, counts each word in a dictionary, sorts the
    dictionary's items by count (descending) and prints one line per word.

    Modelling choices.
    - A Python [str] is a [string]; a character is an [ascii] standing for a
      code point below 256.  [isspace] and [lower_char] are Python's tables
      restricted to that range.
    - Python integers are unbounded: counts are in [Z].
    - A [dict] keeps its keys in insertion order (the language guarantees it
      since Python 3.7); it is an association list, updated in place when the
      key is present and extended at the end otherwise.
    - [sorted] is a stable sort that compares keys with [<] only; with
      [reverse=True] the list is reversed, sorted and reversed again, which
      is how the order of equal elements is kept.
    - Standard input is the text handed to the program by the text layer;
      standard output is the text written so far, threaded through [print]. *)

From Stdlib Require Import List ZArith Lia Bool Ascii String DecimalString.
From Stdlib Require Import Permutation Sorted.
From Stdlib Require DecimalPos DecimalZ.
Import ListNotations.

Local Open Scope string_scope.
Local Open Scope list_scope.
Local Open Scope Z_scope.

(** ** Characters and strings *)

Definition newline : ascii := ascii_of_nat 10.
Definition space : ascii := ascii_of_nat 32.

(** [str.isspace] on one character, as [str.split()] uses it:
    U+0009..U+000D, U+001C..U+0020, U+0085 and U+00A0. *)
Definition isspace (c : ascii) : bool :=
  let n := N_of_ascii c in
  ((9 <=? n) && (n <=? 13) || (28 <=? n) && (n <=? 32)
   || (n =? 133) || (n =? 160))%N.

(** Lowercasing of one character: A-Z, and the Latin-1 capitals
    U+00C0..U+00DE except the multiplication sign U+00D7. *)
Definition lower_char (c : ascii) : ascii :=
  let n := N_of_ascii c in
  if ((65 <=? n) && (n <=? 90)
      || (192 <=? n) && (n <=? 222) && negb (n =? 215))%N
  then ascii_of_N (n + 32)
  else c.

(** [s.lower()] *)
Fixpoint lower (s : string) : string :=
  match s with
  | EmptyString => EmptyString
  | String c r => String (lower_char c) (lower r)
  end.

Definition is_empty (s : string) : bool :=
  match s with
  | EmptyString => true
  | String _ _ => false
  end.

(** [cur] followed by the character [c]. *)
Definition snoc (cur : string) (c : ascii) : string :=
  (cur ++ String c EmptyString)%string.

(** The fragment read so far is delivered, unless it is empty. *)
Definition flush (cur : string) : list string :=
  if is_empty cur then [] else [cur].

(** [s.split()] scanning [s] from left to right, [cur] being the characters
    of the current word read so far. *)
Fixpoint split_from (cur s : string) : list string :=
  match s with
  | EmptyString => flush cur
  | String c r =>
      if isspace c then flush cur ++ split_from EmptyString r
      else split_from (snoc cur c) r
  end.

(** [s.split()] with no argument: maximal runs of non-whitespace. *)
Definition split (s : string) : list string := split_from EmptyString s.

(** Iteration over [sys.stdin]: the text is cut after every newline, each
    line keeps its newline, and a last line with no newline is delivered
    when it is not empty. *)
Fixpoint readlines_from (cur s : string) : list string :=
  match s with
  | EmptyString => flush cur
  | String c r =>
      if Ascii.eqb c newline
      then snoc cur c :: readlines_from EmptyString r
      else readlines_from (snoc cur c) r
  end.

Definition readlines (stdin : string) : list string :=
  readlines_from EmptyString stdin.

(** [str(n)] for an integer: decimal digits, with a minus sign when
    negative. *)
Definition str (n : Z) : string := NilZero.string_of_int (Z.to_int n).

(** ** Dictionaries *)

Definition dict : Type := list (string * Z).

(** [d.get(k, default)] *)
Fixpoint dict_get (d : dict) (k : string) (default : Z) : Z :=
  match d with
  | [] => default
  | (k', v) :: r => if String.eqb k' k then v else dict_get r k default
  end.

(** [d[k] = v]: the value is replaced where the key stands, a new key goes
    to the end. *)
Fixpoint dict_set (d : dict) (k : string) (v : Z) : dict :=
  match d with
  | [] => [(k, v)]
  | (k', v') :: r =>
      if String.eqb k' k then (k', v) :: r else (k', v') :: dict_set r k v
  end.

(** [d.items()], in insertion order. *)
Definition items (d : dict) : list (string * Z) := d.

(** ** Sorting *)

Section Sorting.
Context {A : Type}.
Variable key : A -> Z.

(** [x] goes in front of the first element whose key is not below its
    own, hence in front of the elements with an equal key. *)
Fixpoint insert (x : A) (l : list A) : list A :=
  match l with
  | [] => [x]
  | y :: r => if key y <? key x then y :: insert x r else x :: y :: r
  end.

(** A stable ascending sort: the elements are inserted from the right, so
    that each one lands before the equal elements that followed it. *)
Fixpoint sort_stable (l : list A) : list A :=
  match l with
  | [] => []
  | x :: r => insert x (sort_stable r)
  end.

(** [sorted(l, key=key, reverse=reverse)] *)
Definition sorted (l : list A) (reverse : bool) : list A :=
  if reverse then rev (sort_stable (rev l)) else sort_stable l.

(** Every element is followed by elements of greater or equal key only. *)
Definition ascending : list A -> Prop :=
  StronglySorted (fun a b => key a <= key b).

(** Every element is followed by elements of smaller or equal key only. *)
Definition descending : list A -> Prop :=
  StronglySorted (fun a b => key b <= key a).

(** The elements whose key is [c], in the order of the list. *)
Definition with_key (c : Z) (l : list A) : list A :=
  filter (fun x => key x =? c) l.
End Sorting.

(** ** The program *)

(** Line 7: [counts[word] = counts.get(word, 0) + 1] *)
Definition count_word (counts : dict) (word : string) : dict :=
  dict_set counts word (dict_get counts word 0 + 1).

(** Lines 5-7: the body of the loop over the lines. *)
Definition count_line (counts : dict) (line : string) : dict :=
  let words := split (lower line) in
  fold_left count_word words counts.

(** Lines 3-7: the table once standard input is exhausted. *)
Definition counts (stdin : string) : dict :=
  fold_left count_line (readlines stdin) [].

(** Line 9 *)
Definition pairs (stdin : string) : list (string * Z) :=
  sorted (fun kv => snd kv) (items (counts stdin)) true.

(** The text of one output line, without its newline. *)
Definition render (kv : string * Z) : string :=
  (fst kv ++ String space EmptyString ++ str (snd kv))%string.

(** [print(word, count)]: the two arguments separated by one space and
    followed by a newline, appended to standard output. *)
Definition print (stdout : string) (kv : string * Z) : string :=
  (stdout ++ render kv ++ String newline EmptyString)%string.

(** Lines 10-11, and the whole program: standard output at exit. *)
Definition main (stdin : string) : string :=
  fold_left print (pairs stdin) EmptyString.

(** ** Vocabulary of the specification *)

(** The token stream: the words of every line, in reading order. *)
Definition tokens (stdin : string) : list string :=
  flat_map (fun line => split (lower line)) (readlines stdin).

(** Number of occurrences of a word in a token stream. *)
Definition occurrences (toks : list string) (w : string) : Z :=
  Z.of_nat (count_occ string_dec toks w).

(** The table after the tokens [toks] have been counted, from [d]. *)
Definition count_tokens (d : dict) (toks : list string) : dict :=
  fold_left count_word toks d.

Definition keys (d : dict) : list string := map fst d.
Definition values (d : dict) : list Z := map snd d.

Definition sum (l : list Z) : Z := fold_right Z.add 0 l.

Definition emitted_words (stdin : string) : list string :=
  map fst (pairs stdin).

Definition emitted_counts (stdin : string) : list Z :=
  map snd (pairs stdin).

(** The lines of a text, without their newlines. *)
Fixpoint lines_from (cur s : string) : list string :=
  match s with
  | EmptyString => flush cur
  | String c r =>
      if Ascii.eqb c newline then cur :: lines_from EmptyString r
      else lines_from (snoc cur c) r
  end.

Definition output_lines (stdout : string) : list string :=
  lines_from EmptyString stdout.

(** Position of the first occurrence of [w] in [l] (the length of [l] when
    there is none). *)
Fixpoint index (w : string) (l : list string) : nat :=
  match l with
  | [] => O
  | x :: r => if String.eqb x w then O else S (index w r)
  end.

(** Number of occurrences of a character in a string. *)
Fixpoint count_char (c : ascii) (s : string) : nat :=
  match s with
  | EmptyString => O
  | String c' r => ((if Ascii.eqb c' c then 1 else 0) + count_char c r)%nat
  end.

(** Every character of [s] satisfies [p]. *)
Fixpoint all_chars (p : ascii -> bool) (s : string) : bool :=
  match s with
  | EmptyString => true
  | String c r => p c && all_chars p r
  end.

Definition not_space (c : ascii) : bool := negb (isspace c).

Definition not_newline (c : ascii) : bool := negb (Ascii.eqb c newline).

(** A word as [split] delivers them: not empty, no whitespace inside. *)
Definition is_word (s : string) : bool :=
  negb (is_empty s) && all_chars not_space s.

(** The text made of the given lines, each followed by a newline. *)
Fixpoint unlines (ls : list string) : string :=
  match ls with
  | [] => EmptyString
  | l :: r => (l ++ String newline (unlines r))%string
  end.

(** The example of the specification: two lines, [a b a] and [A c b]. *)
Definition example_input : string :=
  ("a b a" ++ String newline "A c b" ++ String newline "")%string.

(** [" ".join(ws)] *)
Fixpoint join (ws : list string) : string :=
  match ws with
  | [] => EmptyString
  | w :: r =>
      match r with
      | [] => w
      | _ :: _ => (w ++ String space (join r))%string
      end
  end.

(** The strings of a list, one after the other. *)
Definition concat_strings (ls : list string) : string :=
  fold_right String.append EmptyString ls.

(** The last character of [s] is a newline. *)
Fixpoint ends_with_newline (s : string) : bool :=
  match s with
  | EmptyString => false
  | String c r =>
      if is_empty r then Ascii.eqb c newline else ends_with_newline r
  end.

(** A line as the iteration over the input delivers them: not empty, and
    with no newline before its last character. *)
Fixpoint is_line (s : string) : bool :=
  match s with
  | EmptyString => false
  | String c r => if is_empty r then true else not_newline c && is_line r
  end.

(** A character that lowercasing leaves as it is. *)
Definition lowered (c : ascii) : bool := Ascii.eqb (lower_char c) c.

(** A decimal digit, 0 to 9. *)
Definition is_digit (c : ascii) : bool :=
  let n := N_of_ascii c in ((48 <=? n) && (n <=? 57))%N.

(** ** The program on small inputs *)

Example split_runs : split "  to  be " = ["to"; "be"]%string.
Proof. reflexivity. Qed.

Example lines_keep_newline :
  readlines example_input =
  [("a b a" ++ String newline ""); ("A c b" ++ String newline "")]%string.
Proof. reflexivity. Qed.

Example hello_three :
  output_lines (main "hello hello hello") = ["hello 3"]%string.
Proof. reflexivity. Qed.

Example ties_first_seen :
  output_lines (main "b a c C") = ["c 2"; "b 1"; "a 1"]%string.
Proof. reflexivity. Qed.

(** ** The dictionary *)

Section DictFacts.
Implicit Types (d : dict) (k w : string) (v : Z).

Lemma dict_get_set d k v k' default :
  dict_get (dict_set d k v) k' default =
  if String.eqb k k' then v else dict_get d k' default.
Proof.
  induction d as [|[k0 v0] d IH]; simpl.
  - destruct (String.eqb_spec k k'); reflexivity.
  - destruct (String.eqb_spec k0 k) as [->|Hk]; simpl.
    + destruct (String.eqb_spec k k'); reflexivity.
    + rewrite IH.
      destruct (String.eqb_spec k0 k') as [->|Hk']; [|reflexivity].
      destruct (String.eqb_spec k k'); congruence.
Qed.

Lemma keys_set_present d k v :
  In k (keys d) -> keys (dict_set d k v) = keys d.
Proof.
  induction d as [|[k0 v0] d IH]; simpl; [tauto|].
  intros H. destruct (String.eqb_spec k0 k) as [->|Hk]; simpl; [reflexivity|].
  f_equal. apply IH. destruct H; congruence.
Qed.

Lemma keys_set_absent d k v :
  ~ In k (keys d) -> keys (dict_set d k v) = keys d ++ [k].
Proof.
  induction d as [|[k0 v0] d IH]; simpl; [reflexivity|].
  intros H. destruct (String.eqb_spec k0 k) as [->|Hk]; simpl; [tauto|].
  f_equal. apply IH. tauto.
Qed.

Lemma in_keys_set d k v k' :
  In k' (keys (dict_set d k v)) <-> In k' (keys d) \/ k' = k.
Proof.
  destruct (in_dec string_dec k (keys d)) as [Hin|Hout].
  - rewrite keys_set_present by assumption.
    split; [tauto|]. intros [H| ->]; assumption.
  - rewrite keys_set_absent, in_app_iff by assumption. simpl.
    intuition (subst; auto).
Qed.

Lemma NoDup_keys_set d k v :
  NoDup (keys d) -> NoDup (keys (dict_set d k v)).
Proof.
  intros Hd. destruct (in_dec string_dec k (keys d)) as [Hin|Hout].
  - rewrite keys_set_present; assumption.
  - rewrite keys_set_absent by assumption.
    apply NoDup_app; [assumption|repeat constructor; simpl; tauto|].
    intros x Hx [<-|[]]. contradiction.
Qed.

(** With distinct keys, an item of the table is what [get] returns. *)
Lemma in_items_get d k v default :
  NoDup (keys d) -> In (k, v) (items d) -> dict_get d k default = v.
Proof.
  unfold items. induction d as [|[k0 v0] d IH]; simpl; [tauto|].
  intros Hd [H|H].
  - inversion H; subst. now rewrite String.eqb_refl.
  - inversion Hd as [|? ? Hout Hd']; subst.
    destruct (String.eqb_spec k0 k) as [->|Hk]; [|auto].
    exfalso. apply Hout. change k with (fst (k, v)). now apply in_map.
Qed.

Lemma sum_values_set d k :
  sum (values (dict_set d k (dict_get d k 0 + 1))) = sum (values d) + 1.
Proof.
  induction d as [|[k0 v0] d IH]; simpl; [reflexivity|].
  destruct (String.eqb_spec k0 k) as [->|Hk]; simpl; [lia|].
  fold (values (dict_set d k (dict_get d k 0 + 1))). fold (values d).
  rewrite IH. lia.
Qed.

Lemma Forall_set (P : string * Z -> Prop) d k v :
  (forall k', P (k', v)) -> Forall P d -> Forall P (dict_set d k v).
Proof.
  intros Hv. induction 1 as [|[k0 v0] d H0 Hd IH]; simpl.
  - repeat constructor. apply Hv.
  - destruct (String.eqb k0 k); constructor; auto.
Qed.

Lemma dict_get_lower_bound d k :
  Forall (fun kv => 1 <= snd kv) d -> 0 <= dict_get d k 0.
Proof.
  induction 1 as [|[k0 v0] d H0 Hd IH]; simpl in *; [lia|].
  destruct (String.eqb k0 k); lia.
Qed.
End DictFacts.

(** ** Counting a token stream *)

Section Counting.
Implicit Types (d : dict) (toks : list string) (w : string).

Lemma count_tokens_app d toks toks' :
  count_tokens d (toks ++ toks') = count_tokens (count_tokens d toks) toks'.
Proof. apply fold_left_app. Qed.

Lemma count_tokens_snoc d toks w :
  count_tokens d (toks ++ [w]) = count_word (count_tokens d toks) w.
Proof. apply count_tokens_app. Qed.

Lemma occurrences_cons toks w k :
  occurrences (w :: toks) k =
  (if String.eqb w k then 1 else 0) + occurrences toks k.
Proof.
  unfold occurrences. simpl.
  destruct (String.eqb_spec w k), (string_dec w k); try congruence; lia.
Qed.

Lemma dict_get_count_tokens toks : forall d k,
  dict_get (count_tokens d toks) k 0 = dict_get d k 0 + occurrences toks k.
Proof.
  induction toks as [|w toks IH]; intros d k.
  - unfold occurrences. simpl. lia.
  - change (count_tokens d (w :: toks))
      with (count_tokens (count_word d w) toks).
    rewrite IH, occurrences_cons. unfold count_word.
    rewrite dict_get_set.
    destruct (String.eqb_spec w k) as [->|]; lia.
Qed.

Lemma in_keys_count_tokens toks : forall d k,
  In k (keys (count_tokens d toks)) <-> In k (keys d) \/ In k toks.
Proof.
  induction toks as [|w toks IH]; intros d k; simpl; [tauto|].
  fold (count_tokens (count_word d w) toks).
  rewrite IH. unfold count_word. rewrite in_keys_set.
  intuition congruence.
Qed.

Lemma NoDup_keys_count_tokens toks : forall d,
  NoDup (keys d) -> NoDup (keys (count_tokens d toks)).
Proof.
  induction toks as [|w toks IH]; intros d Hd; simpl; [assumption|].
  apply IH, NoDup_keys_set, Hd.
Qed.

Lemma sum_values_count_tokens toks : forall d,
  sum (values (count_tokens d toks)) =
  sum (values d) + Z.of_nat (List.length toks).
Proof.
  induction toks as [|w toks IH]; intros d; [simpl; lia|].
  change (count_tokens d (w :: toks))
    with (count_tokens (count_word d w) toks).
  rewrite IH. unfold count_word. rewrite sum_values_set.
  simpl List.length. lia.
Qed.

Lemma positive_count_tokens toks : forall d,
  Forall (fun kv => 1 <= snd kv) d ->
  Forall (fun kv => 1 <= snd kv) (count_tokens d toks).
Proof.
  induction toks as [|w toks IH]; intros d Hd; simpl; [assumption|].
  apply IH. apply Forall_set; [|assumption].
  intros k'. simpl. pose proof (dict_get_lower_bound d w Hd). lia.
Qed.

(** The two nested loops count the token stream. *)
Lemma counts_tokens stdin : counts stdin = count_tokens [] (tokens stdin).
Proof.
  unfold counts, tokens. generalize (@nil (string * Z)) as d.
  induction (readlines stdin) as [|line lines IH]; intros d; simpl.
  - reflexivity.
  - rewrite count_tokens_app. apply IH.
Qed.
End Counting.

(** ** Sorting *)

Section SortingFacts.
Context {A : Type}.
Variable key : A -> Z.

Lemma insert_perm x l : Permutation (insert key x l) (x :: l).
Proof.
  induction l as [|y l IH]; simpl; [reflexivity|].
  destruct (key y <? key x); [|reflexivity].
  rewrite IH. apply perm_swap.
Qed.

Lemma sort_stable_perm l : Permutation (sort_stable key l) l.
Proof.
  induction l as [|x l IH]; simpl; [reflexivity|].
  rewrite insert_perm. now constructor.
Qed.

Lemma sorted_perm l reverse : Permutation (sorted key l reverse) l.
Proof.
  unfold sorted. destruct reverse; [|apply sort_stable_perm].
  rewrite <- Permutation_rev, sort_stable_perm.
  symmetry. apply Permutation_rev.
Qed.

Lemma insert_ascending x l :
  ascending key l -> ascending key (insert key x l).
Proof.
  unfold ascending. induction 1 as [|y l Hl IH Hy]; simpl.
  - repeat constructor.
  - destruct (Z.ltb_spec (key y) (key x)) as [Hlt|Hge].
    + constructor; [assumption|].
      eapply Permutation_Forall; [symmetry; apply insert_perm|].
      constructor; [lia|assumption].
    + constructor; [now constructor|].
      constructor; [assumption|].
      eapply Forall_impl; [|exact Hy]. simpl. intros; lia.
Qed.

Lemma sort_stable_ascending l : ascending key (sort_stable key l).
Proof.
  induction l as [|x l IH]; simpl.
  - constructor.
  - now apply insert_ascending.
Qed.

Lemma descending_snoc l x :
  descending key l -> Forall (fun y => key x <= key y) l ->
  descending key (l ++ [x]).
Proof.
  unfold descending. induction 1 as [|y l Hl IH Hy]; simpl; intros Hx.
  - repeat constructor.
  - inversion Hx; subst. constructor; [auto|].
    apply Forall_app. split; [assumption|]. now repeat constructor.
Qed.

Lemma rev_ascending l : ascending key l -> descending key (rev l).
Proof.
  induction 1 as [|x l Hl IH Hx]; simpl.
  - constructor.
  - apply descending_snoc; [assumption|]. now apply Forall_rev.
Qed.

Lemma sorted_reverse_descending l : descending key (sorted key l true).
Proof. apply rev_ascending, sort_stable_ascending. Qed.

Lemma descending_consecutive pre x y post :
  descending key (pre ++ x :: y :: post) -> key y <= key x.
Proof.
  unfold descending. induction pre as [|z pre IH]; simpl; intros H.
  - inversion H as [|? ? _ Hx]; subst. now inversion Hx.
  - inversion H; auto.
Qed.

(** Stability: elements with the same key keep their order. *)
Lemma with_key_insert c x l :
  with_key key c (insert key x l) =
  if key x =? c then x :: with_key key c l else with_key key c l.
Proof.
  unfold with_key. induction l as [|y l IH]; simpl; [reflexivity|].
  destruct (Z.ltb_spec (key y) (key x)) as [Hlt|Hge]; simpl.
  - rewrite IH.
    destruct (Z.eqb_spec (key x) c), (Z.eqb_spec (key y) c);
      try reflexivity; lia.
  - reflexivity.
Qed.

Lemma with_key_sort_stable c l :
  with_key key c (sort_stable key l) = with_key key c l.
Proof.
  induction l as [|x l IH]; simpl; [reflexivity|].
  rewrite with_key_insert, IH. reflexivity.
Qed.

Lemma with_key_sorted c l reverse :
  with_key key c (sorted key l reverse) = with_key key c l.
Proof.
  unfold sorted. destruct reverse; [|apply with_key_sort_stable].
  unfold with_key. rewrite filter_rev.
  fold (with_key key c (sort_stable key (rev l))).
  rewrite with_key_sort_stable. unfold with_key.
  rewrite filter_rev. apply rev_involutive.
Qed.
End SortingFacts.

(** ** Words, lines and decimal numbers *)

Section StringFacts.
Implicit Types (s t cur : string) (c : ascii).

Lemma append_empty_r s : (s ++ "")%string = s.
Proof. induction s; simpl; congruence. Qed.

Lemma append_assoc s t u : ((s ++ t) ++ u)%string = (s ++ (t ++ u))%string.
Proof. induction s; simpl; congruence. Qed.

Lemma snoc_append cur c s :
  (snoc cur c ++ s)%string = (cur ++ String c s)%string.
Proof. unfold snoc. now rewrite append_assoc. Qed.

Lemma all_chars_append p s t :
  all_chars p (s ++ t) = all_chars p s && all_chars p t.
Proof.
  induction s as [|c s IH]; simpl; [reflexivity|].
  now rewrite IH, andb_assoc.
Qed.

Lemma all_chars_snoc p cur c :
  all_chars p (snoc cur c) = all_chars p cur && p c.
Proof.
  unfold snoc. rewrite all_chars_append. simpl. now rewrite andb_true_r.
Qed.

Lemma all_chars_impl (p q : ascii -> bool) s :
  (forall c, p c = true -> q c = true) ->
  all_chars p s = true -> all_chars q s = true.
Proof.
  intros Hpq. induction s as [|c s IH]; simpl; [reflexivity|].
  rewrite !andb_true_iff. intuition.
Qed.

Lemma count_char_append c s t :
  count_char c (s ++ t) = (count_char c s + count_char c t)%nat.
Proof. induction s as [|c' s IH]; simpl; [reflexivity|]. rewrite IH. lia. Qed.

Lemma count_char_absent c s :
  all_chars (fun c' => negb (Ascii.eqb c' c)) s = true -> count_char c s = O.
Proof.
  induction s as [|c' s IH]; simpl; [reflexivity|].
  rewrite andb_true_iff. intros [Hc Hs]. rewrite (IH Hs).
  destruct (Ascii.eqb c' c); [discriminate|reflexivity].
Qed.

(** What [split] delivers are words. *)
Lemma split_from_words s : forall cur,
  all_chars not_space cur = true ->
  Forall (fun t => is_word t = true) (split_from cur s).
Proof.
  assert (Hflush : forall cur, all_chars not_space cur = true ->
            Forall (fun t => is_word t = true) (flush cur)).
  { intros cur Hcur. unfold flush. destruct (is_empty cur) eqn:E.
    - constructor.
    - repeat constructor. unfold is_word. now rewrite E, Hcur. }
  induction s as [|c s IH]; intros cur Hcur; simpl.
  - now apply Hflush.
  - destruct (isspace c) eqn:Hc.
    + apply Forall_app. split; [now apply Hflush|now apply IH].
    + apply IH. rewrite all_chars_snoc, Hcur. unfold not_space.
      now rewrite Hc.
Qed.

Lemma split_words s : Forall (fun t => is_word t = true) (split s).
Proof. now apply split_from_words. Qed.

Lemma tokens_words stdin : Forall (fun t => is_word t = true) (tokens stdin).
Proof.
  unfold tokens. induction (readlines stdin) as [|l ls IH]; simpl.
  - constructor.
  - apply Forall_app. split; [apply split_words|assumption].
Qed.

(** [str] writes digits and a sign: no whitespace. *)
Lemma string_of_uint_not_space d :
  all_chars not_space (NilEmpty.string_of_uint d) = true.
Proof. induction d; simpl; try rewrite IHd; reflexivity. Qed.

Lemma str_not_space n : all_chars not_space (str n) = true.
Proof.
  unfold str, NilZero.string_of_int, NilZero.string_of_uint.
  destruct (Z.to_int n) as [d|d]; destruct d; simpl;
    try reflexivity; apply string_of_uint_not_space.
Qed.
End StringFacts.

(** ** Reading lines and writing lines *)

Section LineFacts.
Implicit Types (s t cur : string) (c : ascii).

Lemma lower_append s t : lower (s ++ t) = (lower s ++ lower t)%string.
Proof. induction s; simpl; congruence. Qed.

(** A whitespace character closes the current word: what precedes it and
    what follows it are split independently. *)
Lemma split_from_space c s t : forall cur,
  isspace c = true ->
  split_from cur (s ++ String c t) = split_from cur (snoc s c) ++ split t.
Proof.
  intros cur Hc. revert cur.
  induction s as [|c' s IH]; intros cur; simpl.
  - rewrite Hc. simpl. now rewrite app_nil_r.
  - destruct (isspace c').
    + rewrite IH. fold (snoc s c). now rewrite app_assoc.
    + apply IH.
Qed.

(** Cutting the text into lines does not change its words. *)
Lemma tokens_from_whole s : forall cur,
  flat_map (fun line => split (lower line)) (readlines_from cur s) =
  split (lower (cur ++ s)).
Proof.
  induction s as [|c s IH]; intros cur; simpl.
  - rewrite append_empty_r. unfold flush.
    destruct cur; simpl; [reflexivity|apply app_nil_r].
  - destruct (Ascii.eqb_spec c newline) as [->|Hc]; simpl.
    + rewrite IH. simpl. unfold snoc. rewrite !lower_append. simpl.
      change (lower_char newline) with newline.
      unfold split.
      now rewrite (split_from_space newline (lower cur) (lower s)).
    + rewrite IH. now rewrite snoc_append.
Qed.

Lemma tokens_whole stdin : tokens stdin = split (lower stdin).
Proof. apply tokens_from_whole. Qed.

Lemma fold_print l : forall out,
  fold_left print l out = (out ++ unlines (map render l))%string.
Proof.
  induction l as [|kv l IH]; intros out; simpl.
  - now rewrite append_empty_r.
  - rewrite IH. unfold print. now rewrite !append_assoc.
Qed.

Lemma main_unlines stdin : main stdin = unlines (map render (pairs stdin)).
Proof. unfold main. now rewrite fold_print. Qed.

Lemma lines_from_line l rest : forall cur,
  all_chars not_newline l = true ->
  lines_from cur (l ++ String newline rest) =
  (cur ++ l)%string :: lines_from EmptyString rest.
Proof.
  induction l as [|c l IH]; intros cur; simpl.
  - now rewrite append_empty_r.
  - rewrite andb_true_iff. intros [Hc Hl]. unfold not_newline in Hc.
    destruct (Ascii.eqb c newline); [discriminate|].
    rewrite IH by assumption. now rewrite snoc_append.
Qed.

Lemma output_lines_unlines ls :
  Forall (fun l => all_chars not_newline l = true) ls ->
  output_lines (unlines ls) = ls.
Proof.
  unfold output_lines. induction 1 as [|l ls Hl Hls IH]; simpl.
  - reflexivity.
  - rewrite lines_from_line by assumption. simpl. now rewrite IH.
Qed.

Lemma not_space_not_newline s :
  all_chars not_space s = true -> all_chars not_newline s = true.
Proof.
  apply all_chars_impl. intros c. unfold not_space, not_newline.
  destruct (Ascii.eqb_spec c newline) as [->|]; [discriminate|reflexivity].
Qed.

Lemma render_not_newline w n :
  is_word w = true -> all_chars not_newline (render (w, n)) = true.
Proof.
  unfold is_word, render. rewrite andb_true_iff. intros [_ Hw]. simpl.
  rewrite !all_chars_append. simpl all_chars.
  rewrite (not_space_not_newline w Hw).
  rewrite (not_space_not_newline _ (str_not_space n)).
  reflexivity.
Qed.

(** One space on the line: between the word and the number. *)
Lemma render_one_space w n :
  is_word w = true -> count_char space (render (w, n)) = 1%nat.
Proof.
  unfold is_word, render. rewrite andb_true_iff. intros [_ Hw]. simpl.
  assert (Hsp : forall s, all_chars not_space s = true ->
            count_char space s = O).
  { intros s Hs. apply count_char_absent. revert Hs.
    apply all_chars_impl. intros c. unfold not_space.
    destruct (Ascii.eqb_spec c space) as [->|]; [discriminate|reflexivity]. }
  rewrite !count_char_append. simpl count_char.
  rewrite (Hsp w Hw), (Hsp _ (str_not_space n)). reflexivity.
Qed.
End LineFacts.

(** ** Order of first occurrence *)

Section IndexFacts.
Implicit Types (l : list string) (a b w : string).

Lemma index_in_lt w l : In w l -> (index w l < List.length l)%nat.
Proof.
  induction l as [|x l IH]; simpl; [tauto|].
  intros H. destruct (String.eqb_spec x w) as [->|Hx]; [lia|].
  destruct H as [H|H]; [congruence|]. specialize (IH H). lia.
Qed.

Lemma index_app_in w l l' : In w l -> index w (l ++ l') = index w l.
Proof.
  induction l as [|x l IH]; simpl; [tauto|].
  intros H. destruct (String.eqb_spec x w) as [->|Hx]; [reflexivity|].
  destruct H as [H|H]; [congruence|]. now rewrite IH.
Qed.

Lemma index_snoc_new w l : ~ In w l -> index w (l ++ [w]) = List.length l.
Proof.
  induction l as [|x l IH]; simpl; intros H.
  - now rewrite String.eqb_refl.
  - destruct (String.eqb_spec x w) as [->|Hx]; [tauto|].
    rewrite IH; tauto.
Qed.

(** Removing other elements does not change who comes first. *)
Lemma index_filter (p : string -> bool) a b l :
  p a = true -> p b = true ->
  (index a l < index b l)%nat <->
  (index a (filter p l) < index b (filter p l))%nat.
Proof.
  intros Ha Hb. induction l as [|x l IH]; simpl; [tauto|].
  destruct (String.eqb_spec x a) as [->|Hxa].
  - rewrite Ha. simpl. rewrite String.eqb_refl.
    destruct (String.eqb a b); lia.
  - destruct (String.eqb_spec x b) as [->|Hxb].
    + rewrite Hb. simpl. rewrite String.eqb_refl.
      destruct (String.eqb b a); lia.
    + destruct (p x); simpl.
      * destruct (String.eqb_spec x a), (String.eqb_spec x b);
          try congruence. lia.
      * lia.
Qed.

(** Two lists with the same elements are extended by one element, new to
    both: the first occurrences compare after as they did before. *)
Lemma index_snoc_order a b w l l' :
  (forall x, In x l <-> In x l') ->
  In a (l ++ [w]) -> In b (l ++ [w]) ->
  (In a l -> In b l ->
   (index a l < index b l)%nat <-> (index a l' < index b l')%nat) ->
  (index a (l ++ [w]) < index b (l ++ [w]))%nat <->
  (index a (l' ++ [w]) < index b (l' ++ [w]))%nat.
Proof.
  intros Hll' Ha Hb IH.
  assert (Hcase : forall x, In x (l ++ [w]) ->
            (In x l /\ index x (l ++ [w]) = index x l
               /\ index x (l' ++ [w]) = index x l'
               /\ (index x l < List.length l)%nat
               /\ (index x l' < List.length l')%nat)
            \/ (~ In x l /\ index x (l ++ [w]) = List.length l
                  /\ index x (l' ++ [w]) = List.length l')).
  { intros x Hx. destruct (in_dec string_dec x l) as [Hin|Hout].
    - left. pose proof (proj1 (Hll' x) Hin) as Hin'.
      repeat split; auto using index_app_in, index_in_lt.
    - right. apply in_app_iff in Hx. destruct Hx as [Hx|[<-|[]]]; [tauto|].
      assert (Hout' : ~ In w l') by now rewrite <- Hll'.
      repeat split; auto using index_snoc_new. }
  destruct (Hcase a Ha) as [(Hina & -> & -> & ? & ?)|(_ & -> & ->)],
           (Hcase b Hb) as [(Hinb & -> & -> & ? & ?)|(_ & -> & ->)];
    try lia.
  now apply IH.
Qed.

Lemma keys_count_word d w :
  keys (count_word d w) =
  if in_dec string_dec w (keys d) then keys d else keys d ++ [w].
Proof.
  unfold count_word. destruct (in_dec string_dec w (keys d)).
  - now apply keys_set_present.
  - now apply keys_set_absent.
Qed.

(** The keys of the table stand in the order in which the words were
    first met. *)
Lemma index_keys_tokens toks : forall a b,
  In a toks -> In b toks ->
  (index a (keys (count_tokens [] toks)) <
   index b (keys (count_tokens [] toks)))%nat <->
  (index a toks < index b toks)%nat.
Proof.
  induction toks as [|w toks IH] using rev_ind; [simpl; tauto|].
  intros a b Ha Hb. rewrite count_tokens_snoc, keys_count_word.
  set (K := keys (count_tokens [] toks)) in *.
  assert (HK : forall x, In x toks <-> In x K).
  { intros x. unfold K. rewrite in_keys_count_tokens. simpl. tauto. }
  destruct (in_dec string_dec w K) as [Hin|Hout].
  - assert (Hw : In w toks) by now apply HK.
    assert (Ha' : In a toks).
    { apply in_app_iff in Ha. destruct Ha as [|[<-|[]]]; assumption. }
    assert (Hb' : In b toks).
    { apply in_app_iff in Hb. destruct Hb as [|[<-|[]]]; assumption. }
    rewrite !index_app_in by assumption. now apply IH.
  - symmetry. apply index_snoc_order; try assumption.
    intros Ha' Hb'. symmetry. now apply IH.
Qed.
End IndexFacts.

(** ** The emitted pairs *)

Section PairsFacts.
Variable stdin : string.

Lemma pairs_perm : Permutation (pairs stdin) (items (counts stdin)).
Proof. apply sorted_perm. Qed.

Lemma in_pairs kv :
  In kv (pairs stdin) <-> In kv (count_tokens [] (tokens stdin)).
Proof.
  rewrite <- counts_tokens.
  split; apply Permutation_in; [|symmetry]; apply pairs_perm.
Qed.

Lemma NoDup_keys_counts : NoDup (keys (counts stdin)).
Proof. rewrite counts_tokens. apply NoDup_keys_count_tokens. constructor. Qed.

Lemma NoDup_emitted_words : NoDup (emitted_words stdin).
Proof.
  unfold emitted_words.
  eapply Permutation_NoDup; [|apply NoDup_keys_counts].
  symmetry. apply Permutation_map, pairs_perm.
Qed.

Lemma in_emitted_words w : In w (emitted_words stdin) <-> In w (tokens stdin).
Proof.
  transitivity (In w (keys (counts stdin))).
  - unfold emitted_words, keys.
    split; apply Permutation_in; [|symmetry];
      apply Permutation_map, pairs_perm.
  - rewrite counts_tokens, in_keys_count_tokens. simpl. tauto.
Qed.

Lemma items_count w c :
  In (w, c) (items (counts stdin)) -> c = occurrences (tokens stdin) w.
Proof.
  intros H. apply (in_items_get _ _ _ 0 NoDup_keys_counts) in H.
  rewrite counts_tokens, dict_get_count_tokens in H. simpl in H. lia.
Qed.

Lemma pairs_count w c :
  In (w, c) (pairs stdin) -> c = occurrences (tokens stdin) w.
Proof.
  intros H. apply items_count.
  eapply Permutation_in; [apply pairs_perm|exact H].
Qed.

Lemma pairs_word w c : In (w, c) (pairs stdin) -> In w (tokens stdin).
Proof.
  intros H. apply in_emitted_words. unfold emitted_words.
  change w with (fst (w, c)). now apply in_map.
Qed.

Lemma pairs_words :
  Forall (fun kv => is_word (fst kv) = true) (pairs stdin).
Proof.
  apply Forall_forall. intros [w c] H. simpl.
  pose proof (tokens_words stdin) as Hw. rewrite Forall_forall in Hw.
  eapply Hw, pairs_word, H.
Qed.

Lemma output_lines_main :
  output_lines (main stdin) = map render (pairs stdin).
Proof.
  rewrite main_unlines. apply output_lines_unlines.
  apply Forall_forall. intros line Hline.
  apply in_map_iff in Hline. destruct Hline as ([w c] & <- & Hkv).
  apply render_not_newline.
  pose proof pairs_words as Hw. rewrite Forall_forall in Hw.
  apply (Hw _ Hkv).
Qed.
End PairsFacts.

Lemma sum_perm l l' : Permutation l l' -> sum l = sum l'.
Proof. induction 1; simpl; lia. Qed.

Lemma nodup_length_tokens (l : list string) toks :
  NoDup l -> (forall w, In w l <-> In w toks) ->
  List.length l = List.length (nodup string_dec toks).
Proof.
  intros Hl Hin. apply Permutation_length, NoDup_Permutation.
  - assumption.
  - apply NoDup_nodup.
  - intros w. now rewrite nodup_In.
Qed.

(** ** The order of the output *)

Section OrderFacts.
Implicit Types (l : list (string * Z)) (a b w : string).

Lemma index_inj a b (ws : list string) :
  In a ws -> index a ws = index b ws -> a = b.
Proof.
  induction ws as [|x ws IH]; simpl; [tauto|].
  destruct (String.eqb_spec x a) as [Hxa|Hxa],
           (String.eqb_spec x b) as [Hxb|Hxb];
    try congruence; try discriminate.
  intros [H|H] E; [congruence|]. apply IH; [assumption|lia].
Qed.

(** In a list sorted by descending count, what comes first has the
    greater or equal count. *)
Lemma descending_index l a b ca cb :
  NoDup (map fst l) -> descending snd l ->
  In (a, ca) l -> In (b, cb) l ->
  (index a (map fst l) < index b (map fst l))%nat -> cb <= ca.
Proof.
  unfold descending.
  induction l as [|[x cx] l IH]; simpl; [tauto|].
  intros Hnd Hs Ha Hb Hlt.
  inversion Hnd as [|? ? Hx Hnd']; subst.
  inversion Hs as [|? ? Hs' Hcx]; subst.
  rewrite Forall_forall in Hcx.
  assert (Hkey : forall w c, In (w, c) l -> In w (map fst l)).
  { intros w c H. change w with (fst (w, c)). now apply in_map. }
  destruct (String.eqb_spec x b) as [->|Hxb]; [lia|].
  destruct Hb as [Hb|Hb]; [congruence|].
  destruct (String.eqb_spec x a) as [->|Hxa].
  - destruct Ha as [Ha|Ha].
    + inversion Ha; subst. apply (Hcx _ Hb).
    + elim Hx. eapply Hkey, Ha.
  - destruct Ha as [Ha|Ha]; [congruence|].
    apply IH; auto. lia.
Qed.

(** The keys of the items of a given count, when the count of a word is a
    function of the word. *)
Lemma keys_with_key (f : string -> Z) c l :
  (forall w v, In (w, v) l -> v = f w) ->
  map fst (with_key snd c l) = filter (fun w => f w =? c) (map fst l).
Proof.
  unfold with_key. induction l as [|[x cx] l IH]; intros Hf; simpl.
  - reflexivity.
  - rewrite <- (Hf x cx) by now left.
    rewrite <- IH by (intros w v H; apply Hf; now right).
    now destruct (cx =? c).
Qed.

(** Among the words of equal count, the output follows the order of
    first occurrence. *)
Lemma equal_counts_order stdin a b c :
  In (a, c) (pairs stdin) -> In (b, c) (pairs stdin) ->
  (index a (emitted_words stdin) < index b (emitted_words stdin))%nat <->
  (index a (tokens stdin) < index b (tokens stdin))%nat.
Proof.
  intros Ha Hb.
  pose proof (pairs_count stdin a c Ha) as Hca.
  pose proof (pairs_count stdin b c Hb) as Hcb.
  set (f := occurrences (tokens stdin)) in *.
  set (p := fun w => f w =? c).
  assert (Hpa : p a = true) by (unfold p; lia).
  assert (Hpb : p b = true) by (unfold p; lia).
  rewrite (index_filter p a b (emitted_words stdin) Hpa Hpb).
  unfold emitted_words, p.
  rewrite <- (keys_with_key f c (pairs stdin))
    by (intros w v; apply pairs_count).
  unfold pairs. rewrite (with_key_sorted snd c).
  rewrite (keys_with_key f c) by (intros w v; apply items_count).
  fold p. rewrite <- (index_filter p a b _ Hpa Hpb).
  unfold items. fold (keys (counts stdin)). rewrite counts_tokens.
  apply index_keys_tokens; eapply pairs_word; eassumption.
Qed.
End OrderFacts.

(** ** Properties of the program *)

(** C1: for every input and every emitted pair, the count is the number of
    occurrences of the word in the token stream (the words of every line,
    lowercased and split on runs of whitespace), and the line printed for
    the word shows that number next to it. *)
Theorem count_is_occurrences (stdin w : string) (c : Z) :
  In (w, c) (pairs stdin) ->
  c = occurrences (tokens stdin) w /\
  In (render (w, occurrences (tokens stdin) w)) (output_lines (main stdin)).
Proof.
  intros H. pose proof (pairs_count stdin w c H) as Hc. split; [exact Hc|].
  rewrite output_lines_main, <- Hc. now apply in_map.
Qed.

Lemma count_is_occurrences_witness :
  In ("a", 3) (pairs example_input) /\
  3 = occurrences (tokens example_input) "a" /\
  In (render ("a", occurrences (tokens example_input) "a"))
     (output_lines (main example_input)).
Proof.
  assert (H : In ("a", 3) (pairs example_input)) by (left; reflexivity).
  split; [exact H|]. exact (count_is_occurrences example_input "a" 3 H).
Defined.

(** C2: the emitted pairs are sorted by count, descending: of two
    consecutive emitted pairs, the first has the greater or equal count. *)
Theorem pairs_descending (stdin : string) (pre post : list (string * Z))
    (p q : string * Z) :
  pairs stdin = pre ++ p :: q :: post -> snd q <= snd p.
Proof.
  intros H. apply (descending_consecutive snd pre p q post).
  rewrite <- H. apply sorted_reverse_descending.
Qed.

Lemma pairs_descending_witness :
  pairs example_input = [] ++ ("a", 3) :: ("b", 2) :: [("c", 1)] /\
  snd ("b", 2) <= snd ("a", 3).
Proof.
  assert (H : pairs example_input = [] ++ ("a", 3) :: ("b", 2) :: [("c", 1)])
    by reflexivity.
  split; [exact H|].
  exact (pairs_descending example_input [] [("c", 1)] ("a", 3) ("b", 2) H).
Defined.

(** C3: the emitted counts add up to the number of tokens of the input,
    counted line by line or over the whole text; and after any number of
    tokens has been processed, the counts of the table add up to that
    number of tokens. *)
Theorem sum_counts_is_token_count (stdin : string) :
  sum (emitted_counts stdin) = Z.of_nat (List.length (tokens stdin)) /\
  sum (emitted_counts stdin) = Z.of_nat (List.length (split (lower stdin))) /\
  forall n : nat,
    sum (values (count_tokens [] (firstn n (tokens stdin)))) =
    Z.of_nat (List.length (firstn n (tokens stdin))).
Proof.
  assert (H : sum (emitted_counts stdin) =
              Z.of_nat (List.length (tokens stdin))).
  { unfold emitted_counts.
    rewrite (sum_perm _ _ (Permutation_map snd (pairs_perm stdin))).
    unfold items. fold (values (counts stdin)).
    rewrite counts_tokens, sum_values_count_tokens. simpl. lia. }
  split; [exact H|]. split.
  - rewrite H. now rewrite tokens_whole.
  - intros n. rewrite sum_values_count_tokens. simpl. lia.
Qed.

(** C4: the emitted words are exactly the tokens present in the input. *)
Theorem emitted_words_are_tokens (stdin w : string) :
  In w (emitted_words stdin) <-> In w (tokens stdin).
Proof. apply in_emitted_words. Qed.

(** C5: standard output is made of the rendered pairs, each followed by a
    newline, and of nothing else; there is one line per distinct token, no
    word is printed twice, and each line is a word, one space and the
    decimal count: the space between them is the only one on the line. *)
Theorem one_line_per_word (stdin : string) :
  main stdin = unlines (map render (pairs stdin)) /\
  output_lines (main stdin) = map render (pairs stdin) /\
  List.length (output_lines (main stdin)) =
    List.length (nodup string_dec (tokens stdin)) /\
  NoDup (emitted_words stdin) /\
  Forall (fun kv =>
            render kv = (fst kv ++ String space (str (snd kv)))%string /\
            is_word (fst kv) = true /\
            all_chars not_space (str (snd kv)) = true /\
            count_char space (render kv) = 1%nat)
         (pairs stdin).
Proof.
  split; [apply main_unlines|].
  split; [apply output_lines_main|].
  split; [|split; [apply NoDup_emitted_words|]].
  - rewrite output_lines_main, length_map.
    rewrite <- (length_map fst). fold (emitted_words stdin).
    apply nodup_length_tokens;
      [apply NoDup_emitted_words|apply in_emitted_words].
  - eapply Forall_impl; [|apply pairs_words].
    intros [w c] Hw. simpl in Hw. simpl fst. simpl snd.
    repeat split; auto using str_not_space, render_one_space.
Qed.

(** C6: on the two lines [a b a] and [A c b], the tokens are a, b, a, a, c,
    b, the table is a:3, b:2, c:1 and the output is the three lines [a 3],
    [b 2], [c 1], in that order. *)
Theorem example_two_lines :
  tokens example_input = ["a"; "b"; "a"; "a"; "c"; "b"]%string /\
  counts example_input = [("a", 3); ("b", 2); ("c", 1)]%string /\
  output_lines (main example_input) = ["a 3"; "b 2"; "c 1"]%string /\
  main example_input = unlines ["a 3"; "b 2"; "c 1"]%string.
Proof. repeat split; reflexivity. Qed.

(** C7: nothing is written when the input is empty. *)
Theorem empty_input_empty_output :
  main EmptyString = EmptyString /\ output_lines (main EmptyString) = [].
Proof. split; reflexivity. Qed.

(** C8: two runs on the same input emit the same multiset of pairs, in
    whatever order each run enumerates the items of the table before
    sorting them; and that multiset is the one of [pairs]. *)
Theorem runs_emit_same_multiset (stdin : string)
    (items1 items2 : list (string * Z)) :
  Permutation items1 (items (counts stdin)) ->
  Permutation items2 (items (counts stdin)) ->
  Permutation (sorted (fun kv => snd kv) items1 true)
              (sorted (fun kv => snd kv) items2 true) /\
  Permutation (sorted (fun kv => snd kv) items1 true) (pairs stdin).
Proof.
  intros H1 H2.
  assert (H : forall l, Permutation l (items (counts stdin)) ->
            Permutation (sorted (fun kv => snd kv) l true) (pairs stdin)).
  { intros l Hl. rewrite sorted_perm, pairs_perm. exact Hl. }
  split; [|now apply H].
  rewrite (H _ H1). symmetry. now apply H.
Qed.

Lemma runs_emit_same_multiset_witness :
  Permutation [("b", 2); ("c", 1); ("a", 3)] (items (counts example_input)) /\
  Permutation [("c", 1); ("a", 3); ("b", 2)] (items (counts example_input)) /\
  Permutation
    (sorted (fun kv => snd kv) [("b", 2); ("c", 1); ("a", 3)] true)
    (sorted (fun kv => snd kv) [("c", 1); ("a", 3); ("b", 2)] true) /\
  Permutation
    (sorted (fun kv => snd kv) [("b", 2); ("c", 1); ("a", 3)] true)
    (pairs example_input).
Proof.
  assert (H1 : Permutation [("b", 2); ("c", 1); ("a", 3)]
                 (items (counts example_input))).
  { change (items (counts example_input))
      with ([("a", 3)] ++ [("b", 2); ("c", 1)]).
    apply (Permutation_app_comm [("b", 2); ("c", 1)] [("a", 3)]). }
  assert (H2 : Permutation [("c", 1); ("a", 3); ("b", 2)]
                 (items (counts example_input))).
  { change (items (counts example_input))
      with ([("a", 3); ("b", 2)] ++ [("c", 1)]).
    apply (Permutation_app_comm [("c", 1)] [("a", 3); ("b", 2)]). }
  split; [exact H1|]. split; [exact H2|].
  exact (runs_emit_same_multiset example_input _ _ H1 H2).
Defined.

(** C10: every emitted count is at least 1 and every emitted word occurs in
    the token stream; and whatever number of tokens has been processed,
    every value stored in the table is at least 1. *)
Theorem counts_positive (stdin : string) :
  (forall w c, In (w, c) (pairs stdin) -> 1 <= c /\ In w (tokens stdin)) /\
  (forall n : nat,
     Forall (fun v => 1 <= v)
            (values (count_tokens [] (firstn n (tokens stdin))))).
Proof.
  assert (H : forall toks,
            Forall (fun v => 1 <= v) (values (count_tokens [] toks))).
  { intros toks. unfold values. apply Forall_map.
    apply positive_count_tokens. constructor. }
  split; [|intros n; apply H].
  intros w c Hin. split; [|exact (pairs_word stdin w c Hin)].
  apply in_pairs in Hin. specialize (H (tokens stdin)).
  unfold values in H. rewrite Forall_map, Forall_forall in H.
  apply (H _ Hin).
Qed.

Lemma counts_positive_witness :
  In ("c", 1) (pairs example_input) /\
  1 <= 1 /\ In "c"%string (tokens example_input).
Proof.
  assert (H : In ("c", 1) (pairs example_input))
    by (right; right; left; reflexivity).
  split; [exact H|].
  exact (proj1 (counts_positive example_input) "c"%string 1 H).
Defined.

(** C9: the order of the output is determined by the input.  Of two
    emitted words, the one with the greater count comes first; two words
    with equal counts come in the order of their first occurrences in the
    token stream. *)
Theorem output_order (stdin w1 w2 : string) (c1 c2 : Z) :
  In (w1, c1) (pairs stdin) -> In (w2, c2) (pairs stdin) ->
  (index w1 (emitted_words stdin) < index w2 (emitted_words stdin))%nat <->
  c2 < c1 \/
  c1 = c2 /\ (index w1 (tokens stdin) < index w2 (tokens stdin))%nat.
Proof.
  intros H1 H2.
  pose proof (NoDup_emitted_words stdin) as Hnd.
  pose proof (sorted_reverse_descending snd (items (counts stdin))) as Hs.
  fold (pairs stdin) in Hs. unfold emitted_words in *.
  assert (Hw1 : In w1 (map fst (pairs stdin))).
  { change w1 with (fst (w1, c1)). now apply in_map. }
  split.
  - intros Hlt.
    pose proof (descending_index _ _ _ _ _ Hnd Hs H1 H2 Hlt) as Hle.
    destruct (Z.eq_dec c1 c2) as [<-|Hne]; [|lia].
    right. split; [reflexivity|]. now apply (equal_counts_order stdin w1 w2 c1).
  - intros [Hlt|[<- Hlt]].
    + destruct (Nat.lt_trichotomy (index w1 (map fst (pairs stdin)))
                                  (index w2 (map fst (pairs stdin))))
        as [H|[H|H]]; [exact H| |].
      * apply index_inj in H; [|exact Hw1]. subst w2.
        pose proof (pairs_count stdin w1 c1 H1).
        pose proof (pairs_count stdin w1 c2 H2). lia.
      * pose proof (descending_index _ _ _ _ _ Hnd Hs H2 H1 H). lia.
    + now apply (equal_counts_order stdin w1 w2 c1).
Qed.

Lemma output_order_witness :
  In ("b", 1) (pairs "b a c c") /\ In ("a", 1) (pairs "b a c c") /\
  ((index "b" (emitted_words "b a c c") <
    index "a" (emitted_words "b a c c"))%nat <->
   1 < 1 \/
   1 = 1 /\ (index "b" (tokens "b a c c") < index "a" (tokens "b a c c"))%nat).
Proof.
  assert (H1 : In ("b", 1) (pairs "b a c c")) by (right; left; reflexivity).
  assert (H2 : In ("a", 1) (pairs "b a c c"))
    by (right; right; left; reflexivity).
  split; [exact H1|]. split; [exact H2|].
  exact (output_order "b a c c" "b" "a" 1 1 H1 H2).
Defined.

(** * Further properties of the code *)

(** ** Characters *)

Section CharFacts.
Implicit Types (c : ascii).

Lemma lower_char_space c : isspace c = true -> lower_char c = c.
Proof.
  destruct c as [[] [] [] [] [] [] [] []]; vm_compute;
    intros H; solve [reflexivity | discriminate H].
Qed.

Lemma isspace_lower_char c : isspace (lower_char c) = isspace c.
Proof. destruct c as [[] [] [] [] [] [] [] []]; vm_compute; reflexivity. Qed.

Lemma lower_char_idem c : lower_char (lower_char c) = lower_char c.
Proof. destruct c as [[] [] [] [] [] [] [] []]; vm_compute; reflexivity. Qed.
End CharFacts.

(** ** Splitting *)

Section SplitFacts.
Implicit Types (s t cur : string) (c : ascii).

(** A whitespace character at the end adds no word. *)
Lemma split_from_snoc_space c s : forall cur,
  isspace c = true -> split_from cur (snoc s c) = split_from cur s.
Proof.
  intros cur Hc. revert cur. induction s as [|c' s IH]; intros cur; simpl.
  - rewrite Hc. simpl. apply app_nil_r.
  - fold (snoc s c). now rewrite !IH.
Qed.

Lemma split_append_space c s t :
  isspace c = true -> split (s ++ String c t) = split s ++ split t.
Proof.
  intros Hc. unfold split at 1 2.
  now rewrite split_from_space, split_from_snoc_space.
Qed.

(** A string with no whitespace is one word with what was read before. *)
Lemma split_from_word s : forall cur,
  all_chars not_space s = true -> split_from cur s = flush (cur ++ s).
Proof.
  induction s as [|c s IH]; intros cur; simpl.
  - now rewrite append_empty_r.
  - rewrite andb_true_iff. unfold not_space at 1. intros [Hc Hs].
    destruct (isspace c); [discriminate|].
    rewrite IH by assumption. now rewrite snoc_append.
Qed.

Lemma split_word w : is_word w = true -> split w = [w].
Proof.
  unfold is_word. rewrite andb_true_iff. intros [Hne Hw].
  unfold split. rewrite split_from_word by assumption. simpl.
  unfold flush. now destruct (is_empty w).
Qed.

(** Only whitespace: no word. *)
Lemma split_blank s : all_chars isspace s = true -> split s = [].
Proof.
  unfold split. induction s as [|c s IH]; simpl; [reflexivity|].
  rewrite andb_true_iff. intros [-> Hs]. now apply IH.
Qed.

Lemma lower_blank s : all_chars isspace s = true -> lower s = s.
Proof.
  induction s as [|c s IH]; simpl; [reflexivity|].
  rewrite andb_true_iff. intros [Hc Hs].
  now rewrite (lower_char_space c Hc), IH.
Qed.

Lemma lower_idem s : lower (lower s) = lower s.
Proof.
  induction s as [|c s IH]; simpl; [reflexivity|].
  now rewrite lower_char_idem, IH.
Qed.

Lemma lowered_lower s : all_chars lowered (lower s) = true.
Proof.
  induction s as [|c s IH]; simpl; [reflexivity|].
  unfold lowered at 1. now rewrite lower_char_idem, Ascii.eqb_refl, IH.
Qed.

Lemma lower_lowered s : all_chars lowered s = true -> lower s = s.
Proof.
  induction s as [|c s IH]; simpl; [reflexivity|].
  rewrite andb_true_iff. unfold lowered at 1. intros [Hc Hs].
  apply Ascii.eqb_eq in Hc. now rewrite Hc, IH.
Qed.

(** The words of a text share the properties of its characters. *)
Lemma split_from_all_chars (p : ascii -> bool) s : forall cur,
  all_chars p cur = true -> all_chars p s = true ->
  Forall (fun t => all_chars p t = true) (split_from cur s).
Proof.
  assert (Hflush : forall cur, all_chars p cur = true ->
            Forall (fun t => all_chars p t = true) (flush cur)).
  { intros cur Hcur. unfold flush. destruct (is_empty cur); auto. }
  induction s as [|c s IH]; intros cur Hcur; simpl; [auto|].
  rewrite andb_true_iff. intros [Hc Hs]. destruct (isspace c).
  - apply Forall_app. split; [auto|]. now apply IH.
  - apply IH; [|assumption]. now rewrite all_chars_snoc, Hcur, Hc.
Qed.

(** The output is a function of the token stream. *)
Lemma main_tokens s1 s2 : tokens s1 = tokens s2 -> main s1 = main s2.
Proof.
  intros H. unfold main, pairs. now rewrite !counts_tokens, H.
Qed.
End SplitFacts.

(** ** Tokens *)

(** X1: cutting the input into lines changes nothing to its words: the
    tokens read line by line are the words of the whole lowercased
    text. *)
Theorem tokens_ignore_line_cuts (stdin : string) :
  tokens stdin = split (lower stdin).
Proof. apply tokens_whole. Qed.

(** X3: an input made of whitespace only produces no output. *)
Theorem blank_input_empty_output (stdin : string) :
  all_chars isspace stdin = true -> main stdin = EmptyString.
Proof.
  intros H. unfold main, pairs.
  rewrite counts_tokens, tokens_whole, (lower_blank _ H), (split_blank _ H).
  reflexivity.
Qed.

Lemma blank_input_empty_output_witness :
  all_chars isspace (String space (String newline (String space ""))) = true /\
  main (String space (String newline (String space ""))) = EmptyString.
Proof.
  assert (H : all_chars isspace
                (String space (String newline (String space ""))) = true)
    by reflexivity.
  split; [exact H|]. exact (blank_input_empty_output _ H).
Defined.

(** X4: letter case does not matter: two inputs with the same lowercase
    form produce the same output. *)
Theorem case_insensitive (stdin1 stdin2 : string) :
  lower stdin1 = lower stdin2 -> main stdin1 = main stdin2.
Proof.
  intros H. apply main_tokens. now rewrite !tokens_whole, H.
Qed.

Lemma case_insensitive_witness :
  lower "The the THE cat" = lower "the THE The CAT" /\
  main "The the THE cat" = main "the THE The CAT".
Proof.
  assert (H : lower "The the THE cat" = lower "the THE The CAT")
    by reflexivity.
  split; [exact H|]. exact (case_insensitive _ _ H).
Defined.

(** X5: every emitted word is in lowercase: lowercasing it again changes
    nothing. *)
Theorem emitted_words_lowercase (stdin w : string) :
  In w (emitted_words stdin) -> lower w = w.
Proof.
  rewrite in_emitted_words, tokens_whole. intros H.
  apply lower_lowered.
  pose proof (split_from_all_chars lowered (lower stdin) EmptyString
                eq_refl (lowered_lower stdin)) as Hall.
  rewrite Forall_forall in Hall. now apply Hall.
Qed.

Lemma emitted_words_lowercase_witness :
  In "cat"%string (emitted_words "Cat CAT dog") /\ lower "cat" = "cat"%string.
Proof.
  assert (H : In "cat"%string (emitted_words "Cat CAT dog"))
    by (left; reflexivity).
  split; [exact H|]. exact (emitted_words_lowercase _ _ H).
Defined.

Lemma tokens_append_space c s1 s2 :
  isspace c = true -> tokens (s1 ++ String c s2) = tokens s1 ++ tokens s2.
Proof.
  intros Hc. rewrite !tokens_whole, lower_append. simpl.
  apply split_append_space. now rewrite isspace_lower_char.
Qed.

(** X6: two texts put one after the other with a whitespace character
    between them: the tokens are those of the first followed by those of
    the second, and every word occurs as often as in both together. *)
Theorem tokens_of_concatenation (c : ascii) (stdin1 stdin2 : string) :
  isspace c = true ->
  tokens (stdin1 ++ String c stdin2) = tokens stdin1 ++ tokens stdin2 /\
  forall w,
    occurrences (tokens (stdin1 ++ String c stdin2)) w =
    occurrences (tokens stdin1) w + occurrences (tokens stdin2) w.
Proof.
  intros Hc.
  assert (H : tokens (stdin1 ++ String c stdin2) =
              tokens stdin1 ++ tokens stdin2).
  { now apply tokens_append_space. }
  split; [exact H|].
  intros w. rewrite H. unfold occurrences. rewrite count_occ_app. lia.
Qed.

Lemma tokens_of_concatenation_witness :
  isspace newline = true /\
  tokens ("a B" ++ String newline "b c") = tokens "a B" ++ tokens "b c" /\
  forall w,
    occurrences (tokens ("a B" ++ String newline "b c")) w =
    occurrences (tokens "a B") w + occurrences (tokens "b c") w.
Proof.
  assert (H : isspace newline = true) by reflexivity.
  split; [exact H|]. exact (tokens_of_concatenation newline "a B" "b c" H).
Defined.

(** X7: splitting undoes joining: words joined with single spaces are
    split back into the same words. *)
Theorem split_join (ws : list string) :
  Forall (fun w => is_word w = true) ws -> split (join ws) = ws.
Proof.
  induction 1 as [|w ws Hw Hws IH]; [reflexivity|].
  destruct ws as [|w' ws].
  - now apply split_word.
  - change (join (w :: w' :: ws))
      with (w ++ String space (join (w' :: ws)))%string.
    rewrite split_append_space by reflexivity.
    now rewrite (split_word w Hw), IH.
Qed.

Lemma split_join_witness :
  Forall (fun w => is_word w = true) ["to"; "be"; "or"]%string /\
  split (join ["to"; "be"; "or"]%string) = ["to"; "be"; "or"]%string.
Proof.
  assert (H : Forall (fun w => is_word w = true) ["to"; "be"; "or"]%string)
    by (repeat constructor).
  split; [exact H|]. exact (split_join _ H).
Defined.

(** ** Reading the input line by line *)

Section ReadFacts.
Implicit Types (s cur : string) (c : ascii).

Lemma concat_readlines_from s : forall cur,
  concat_strings (readlines_from cur s) = (cur ++ s)%string.
Proof.
  induction s as [|c s IH]; intros cur; simpl.
  - unfold flush. destruct cur; simpl; [reflexivity|].
    now rewrite !append_empty_r.
  - destruct (Ascii.eqb c newline); simpl.
    + rewrite IH. simpl. apply snoc_append.
    + rewrite IH. apply snoc_append.
Qed.

Lemma is_empty_snoc cur c : is_empty (snoc cur c) = false.
Proof. now destruct cur. Qed.

Lemma is_line_snoc cur c :
  all_chars not_newline cur = true -> is_line (snoc cur c) = true.
Proof.
  induction cur as [|a cur IH]; simpl; [reflexivity|].
  rewrite andb_true_iff. intros [Ha Hcur]. fold (snoc cur c).
  now rewrite is_empty_snoc, Ha, IH.
Qed.

Lemma is_line_fragment cur :
  all_chars not_newline cur = true -> is_empty cur = false ->
  is_line cur = true.
Proof.
  induction cur as [|a cur IH]; simpl; [discriminate|].
  rewrite andb_true_iff. intros [Ha Hcur] _.
  destruct (is_empty cur) eqn:E; [reflexivity|]. now rewrite Ha, IH.
Qed.

Lemma ends_with_newline_snoc cur : ends_with_newline (snoc cur newline) = true.
Proof.
  induction cur as [|a cur IH]; simpl; [reflexivity|].
  fold (snoc cur newline). now rewrite is_empty_snoc.
Qed.

Lemma readlines_from_lines s : forall cur,
  all_chars not_newline cur = true ->
  Forall (fun l => is_line l = true) (readlines_from cur s).
Proof.
  induction s as [|c s IH]; intros cur Hcur; simpl.
  - unfold flush. destruct (is_empty cur) eqn:E; [constructor|].
    repeat constructor. now apply is_line_fragment.
  - destruct (Ascii.eqb c newline) eqn:Hc.
    + constructor; [now apply is_line_snoc|now apply IH].
    + apply IH. rewrite all_chars_snoc, Hcur. unfold not_newline.
      now rewrite Hc.
Qed.

Lemma readlines_from_terminated s : forall cur,
  Forall (fun l => ends_with_newline l = true)
         (removelast (readlines_from cur s)).
Proof.
  induction s as [|c s IH]; intros cur.
  - simpl. unfold flush. destruct (is_empty cur); constructor.
  - simpl readlines_from. destruct (Ascii.eqb_spec c newline) as [->|Hc].
    + specialize (IH EmptyString).
      destruct (readlines_from EmptyString s) as [|l ls]; [constructor|].
      change (removelast (snoc cur newline :: l :: ls))
        with (snoc cur newline :: removelast (l :: ls)).
      constructor; [apply ends_with_newline_snoc|exact IH].
    + apply IH.
Qed.
End ReadFacts.

(** X2: the lines read from the input, put back one after the other, are
    the input: no character is lost or added.  No line is empty, a line
    holds no newline before its last character, and every line but the
    last one ends with a newline. *)
Theorem readlines_partition (stdin : string) :
  concat_strings (readlines stdin) = stdin /\
  Forall (fun l => is_line l = true) (readlines stdin) /\
  Forall (fun l => ends_with_newline l = true) (removelast (readlines stdin)).
Proof.
  split; [apply (concat_readlines_from stdin EmptyString)|].
  split; [now apply readlines_from_lines|apply readlines_from_terminated].
Qed.

(** ** The table *)

Section TableFacts.
Implicit Types (d : dict) (toks : list string) (k w : string).

(** A key that is not in the table gets the default. *)
Lemma dict_get_absent d k default :
  ~ In k (keys d) -> dict_get d k default = default.
Proof.
  induction d as [|[k0 v0] d IH]; simpl; [reflexivity|].
  intros H. destruct (String.eqb_spec k0 k) as [->|Hk]; [tauto|].
  apply IH. tauto.
Qed.

Lemma keys_count_tokens_prefix toks : forall d,
  exists l, keys (count_tokens d toks) = keys d ++ l.
Proof.
  induction toks as [|w toks IH]; intros d.
  - exists []. simpl. now rewrite app_nil_r.
  - destruct (IH (count_word d w)) as [l Hl].
    change (count_tokens d (w :: toks))
      with (count_tokens (count_word d w) toks).
    rewrite Hl, keys_count_word.
    destruct (in_dec string_dec w (keys d)).
    + now exists l.
    + exists (w :: l). now rewrite <- app_assoc.
Qed.

Lemma dict_get_count_tokens_le toks d k :
  dict_get d k 0 <= dict_get (count_tokens d toks) k 0.
Proof. rewrite dict_get_count_tokens. unfold occurrences. lia. Qed.

Lemma counts_append_space c s1 s2 :
  isspace c = true ->
  counts (s1 ++ String c s2) = count_tokens (counts s1) (tokens s2).
Proof.
  intros Hc. rewrite !counts_tokens, tokens_append_space by assumption.
  apply count_tokens_app.
Qed.
End TableFacts.

(** X8: counting one word adds one to its count, a word met for the first
    time getting the count 1 from the default 0, and changes no other
    count; a new word goes to the end of the table and the other words
    stay where they are. *)
Theorem count_word_effect (d : dict) (w k : string) :
  dict_get (count_word d w) k 0 =
    dict_get d k 0 + (if String.eqb w k then 1 else 0) /\
  dict_get (count_word d w) w 0 =
    (if in_dec string_dec w (keys d) then dict_get d w 0 + 1 else 1) /\
  keys (count_word d w) =
    if in_dec string_dec w (keys d) then keys d else keys d ++ [w].
Proof.
  split; [|split; [|apply keys_count_word]].
  - unfold count_word. rewrite dict_get_set.
    now destruct (String.eqb_spec w k) as [->|]; [|lia].
  - unfold count_word. rewrite dict_get_set, String.eqb_refl.
    destruct (in_dec string_dec w (keys d)) as [Hin|Hout]; [reflexivity|].
    now rewrite dict_get_absent.
Qed.

(** X9: reading on keeps what was counted: when more text follows a
    whitespace character, the table goes on from the one of the text read
    so far; the words already there keep their places, in front of the new
    ones, and no count goes down. *)
Theorem table_grows (c : ascii) (stdin1 stdin2 : string) :
  isspace c = true ->
  counts (stdin1 ++ String c stdin2) =
    count_tokens (counts stdin1) (tokens stdin2) /\
  (exists l, keys (counts (stdin1 ++ String c stdin2)) =
             keys (counts stdin1) ++ l) /\
  forall k, dict_get (counts stdin1) k 0 <=
            dict_get (counts (stdin1 ++ String c stdin2)) k 0.
Proof.
  intros Hc. rewrite (counts_append_space c stdin1 stdin2 Hc).
  split; [reflexivity|].
  split; [apply keys_count_tokens_prefix|].
  intros k. apply dict_get_count_tokens_le.
Qed.

Lemma table_grows_witness :
  isspace newline = true /\
  counts ("b a" ++ String newline "c a") =
    count_tokens (counts "b a") (tokens "c a") /\
  (exists l, keys (counts ("b a" ++ String newline "c a")) =
             keys (counts "b a") ++ l) /\
  forall k, dict_get (counts "b a") k 0 <=
            dict_get (counts ("b a" ++ String newline "c a")) k 0.
Proof.
  assert (H : isspace newline = true) by reflexivity.
  split; [exact H|]. exact (table_grows newline "b a" "c a" H).
Defined.

(** ** The pairs *)

Section MorePairsFacts.
Variable stdin : string.

(** The emitted pairs are the words of the input with their numbers of
    occurrences. *)
Lemma in_pairs_iff w c :
  In (w, c) (pairs stdin) <->
  In w (tokens stdin) /\ c = occurrences (tokens stdin) w.
Proof.
  split.
  - intros H. split; [eapply pairs_word|apply pairs_count]; exact H.
  - intros [Hw ->]. apply in_emitted_words in Hw.
    unfold emitted_words in Hw. apply in_map_iff in Hw.
    destruct Hw as ([w' c'] & Hfst & Hin). simpl in Hfst. subst w'.
    now rewrite <- (pairs_count stdin w c' Hin).
Qed.

Lemma pairs_sorted : descending snd (pairs stdin).
Proof. apply (sorted_reverse_descending snd (items (counts stdin))). Qed.

Lemma NoDup_pairs : NoDup (pairs stdin).
Proof. apply (NoDup_map_inv fst), NoDup_emitted_words. Qed.

Lemma pairs_positive kv : In kv (pairs stdin) -> 1 <= snd kv.
Proof.
  intros H. apply in_pairs in H.
  assert (Hall : Forall (fun kv => 1 <= snd kv)
                   (count_tokens [] (tokens stdin))).
  { apply positive_count_tokens. constructor. }
  rewrite Forall_forall in Hall. now apply Hall.
Qed.
End MorePairsFacts.

Lemma occurrences_perm toks toks' w :
  Permutation toks toks' -> occurrences toks w = occurrences toks' w.
Proof.
  intros H. unfold occurrences. f_equal.
  now apply (Permutation_count_occ string_dec).
Qed.

(** X10: the order of the words in the input changes at most the order
    of the output: when the tokens of two inputs are the same up to their
    order, so are the emitted pairs. *)
Theorem word_order_irrelevant (stdin1 stdin2 : string) :
  Permutation (tokens stdin1) (tokens stdin2) ->
  Permutation (pairs stdin1) (pairs stdin2).
Proof.
  intros H. apply NoDup_Permutation; try apply NoDup_pairs.
  intros [w c]. rewrite !in_pairs_iff.
  rewrite (occurrences_perm _ _ w H).
  split; intros [Hw Hc]; (split; [|exact Hc]).
  - eapply Permutation_in; [exact H|exact Hw].
  - eapply Permutation_in; [symmetry; exact H|exact Hw].
Qed.

Lemma word_order_irrelevant_witness :
  Permutation (tokens "a b") (tokens "b a") /\
  Permutation (pairs "a b") (pairs "b a").
Proof.
  assert (H : Permutation (tokens "a b") (tokens "b a"))
    by apply (perm_swap "b"%string "a"%string []).
  split; [exact H|]. exact (word_order_irrelevant "a b" "b a" H).
Defined.

(** X12: the first line of the output is for a most frequent word: no
    word occurs more often in the input than the count emitted first. *)
Theorem first_pair_most_frequent (stdin : string) (p : string * Z)
    (rest : list (string * Z)) :
  pairs stdin = p :: rest ->
  forall w, occurrences (tokens stdin) w <= snd p.
Proof.
  intros Hp w.
  pose proof (pairs_sorted stdin) as Hs. rewrite Hp in Hs.
  inversion Hs as [|? ? _ Hrest]; subst. rewrite Forall_forall in Hrest.
  assert (H1 : 1 <= snd p).
  { apply (pairs_positive stdin). rewrite Hp. now left. }
  destruct (in_dec string_dec w (tokens stdin)) as [Hin|Hout].
  - assert (Hw : In (w, occurrences (tokens stdin) w) (pairs stdin))
      by now apply in_pairs_iff.
    rewrite Hp in Hw. destruct Hw as [->|Hw]; [simpl; lia|].
    apply (Hrest _ Hw).
  - unfold occurrences.
    rewrite (proj1 (count_occ_not_In string_dec _ _) Hout). simpl. lia.
Qed.

Lemma first_pair_most_frequent_witness :
  pairs "b a c a" = ("a", 2) :: [("b", 1); ("c", 1)] /\
  forall w, occurrences (tokens "b a c a") w <= snd ("a"%string, 2).
Proof.
  assert (H : pairs "b a c a" = ("a", 2) :: [("b", 1); ("c", 1)])
    by reflexivity.
  split; [exact H|]. exact (first_pair_most_frequent _ _ _ H).
Defined.

(** ** The printed lines *)

Section PrintFacts.
Implicit Types (s t w : string) (n : Z).

(** The first space of a line is where its word ends. *)
Lemma append_space_inj w1 : forall w2 s1 s2,
  all_chars not_space w1 = true -> all_chars not_space w2 = true ->
  (w1 ++ String space s1)%string = (w2 ++ String space s2)%string ->
  w1 = w2 /\ s1 = s2.
Proof.
  induction w1 as [|a w1 IH]; intros [|b w2] s1 s2; simpl.
  - intros _ _ [= ->]. now split.
  - rewrite andb_true_iff. intros _ [Hb _] [= <- _]. discriminate Hb.
  - rewrite andb_true_iff. intros [Ha _] _ [= -> _]. discriminate Ha.
  - rewrite !andb_true_iff. intros [_ H1] [_ H2] [= -> E].
    destruct (IH w2 s1 s2 H1 H2 E) as [-> ->]. now split.
Qed.

Lemma to_int_proper n :
  Z.to_int n <> Decimal.Pos Decimal.Nil /\
  Z.to_int n <> Decimal.Neg Decimal.Nil.
Proof.
  destruct n as [|p|p]; simpl; split; try discriminate;
    intros [= H]; exact (DecimalPos.Unsigned.to_uint_nonnil p H).
Qed.

(** Reading a printed number gives the number back. *)
Lemma int_of_string_str n :
  NilZero.int_of_string (str n) = Some (Z.to_int n).
Proof.
  unfold str. destruct (to_int_proper n). now apply NilZero.isi.
Qed.

Lemma str_inj n1 n2 : str n1 = str n2 -> n1 = n2.
Proof.
  intros H. apply DecimalZ.to_int_inj.
  apply (f_equal NilZero.int_of_string) in H.
  rewrite !int_of_string_str in H. congruence.
Qed.

Lemma string_of_uint_digits d :
  all_chars is_digit (NilEmpty.string_of_uint d) = true.
Proof. induction d; simpl; try rewrite IHd; reflexivity. Qed.

Lemma str_digits n :
  0 <= n -> is_empty (str n) = false /\ all_chars is_digit (str n) = true.
Proof.
  intros Hn. unfold str, NilZero.string_of_int, NilZero.string_of_uint.
  destruct n as [|p|p]; [now split| |lia]. simpl Z.to_int.
  pose proof (DecimalPos.Unsigned.to_uint_nonnil p) as Hp.
  destruct (Pos.to_uint p) as [|d|d|d|d|d|d|d|d|d|d];
    [congruence|..]; (split; [reflexivity|]);
    simpl; apply string_of_uint_digits.
Qed.
End PrintFacts.

(** X11: a printed line tells its word and its count: two pairs whose
    words hold no whitespace are printed alike only if they have the same
    word and the same count. *)
Theorem render_injective (w1 w2 : string) (c1 c2 : Z) :
  is_word w1 = true -> is_word w2 = true ->
  render (w1, c1) = render (w2, c2) -> w1 = w2 /\ c1 = c2.
Proof.
  unfold is_word, render. rewrite !andb_true_iff. simpl.
  intros [_ H1] [_ H2] E.
  destruct (append_space_inj w1 w2 _ _ H1 H2 E) as [Hw Hc].
  split; [exact Hw|now apply str_inj].
Qed.

Lemma render_injective_witness :
  is_word "the" = true /\ is_word "the" = true /\
  render ("the", 12) = render ("the", 12) /\
  "the"%string = "the"%string /\ 12 = 12.
Proof.
  assert (H : is_word "the" = true) by reflexivity.
  assert (E : render ("the", 12) = render ("the", 12)) by reflexivity.
  split; [exact H|]. split; [exact H|]. split; [exact E|].
  exact (render_injective "the" "the" 12 12 H H E).
Defined.

(** X13: the count of an emitted pair is printed as a non-empty string of
    decimal digits: no sign, no separator. *)
Theorem printed_count_digits (stdin w : string) (c : Z) :
  In (w, c) (pairs stdin) ->
  is_empty (str c) = false /\ all_chars is_digit (str c) = true.
Proof.
  intros H. apply str_digits.
  pose proof (pairs_positive stdin (w, c) H) as Hc. simpl in Hc. lia.
Qed.

Lemma printed_count_digits_witness :
  In ("a", 3) (pairs example_input) /\
  is_empty (str 3) = false /\ all_chars is_digit (str 3) = true.
Proof.
  assert (H : In ("a", 3) (pairs example_input)) by (left; reflexivity).
  split; [exact H|]. exact (printed_count_digits example_input "a" 3 H).
Defined.
